(** * Canary model service (src/app.py, class CanaryModelService)

    A shallow embedding of the canary routing and model-lifecycle core of
    the FastAPI service.  Python floats (the routing probability and the
    value of [random.random()]) are modelled as rationals [Q]; the loaded
    sklearn models are an abstract type [Model] whose [predict] either
    returns a list of labels or raises (modelled as [None]). *)

From Stdlib Require Import List String Bool ZArith QArith Lia.
Import ListNotations.
Open Scope string_scope.

Section Canary.

(** The type of models returned by [mlflow.sklearn.load_model]. *)
Context {Model : Type}.

(** [model.predict(np.array(features)).tolist()]: [None] when numpy or the
    model raises (shape mismatch, ragged input, type error). *)
Variable model_predict : Model -> list (list Q) -> option (list Z).

(** The external loader as seen by one call: the answer of
    [mlflow.sklearn.load_model(model_uri)], [None] when it raises. *)
Definition Loader := string -> option Model.

(** The fields of [CanaryModelService]; [None] is Python's [None]. *)
Record Service := mkService {
  current_model : option Model;
  next_model : option Model;
  current_model_name : option string;
  current_model_version : option string;
  next_model_name : option string;
  next_model_version : option string;
  canary_probability : Q
}.

(** [__init__] (the mlflow tracking-URI setup has no effect on these fields). *)
Definition init_service : Service :=
  mkService None None None None None None 1.

Definition model_uri (model_name version : string) : string :=
  "models:/" ++ model_name ++ "/" ++ version.

(** [load_model(model_name, version, target)]: returns the boolean result
    and the new state.  The model is loaded first; the slot fields are
    written only after a successful load and only for a valid target. *)
Definition load_model (mlflow_load : Loader) (s : Service)
    (model_name version target : string) : bool * Service :=
  match mlflow_load (model_uri model_name version) with
  | None => (false, s)
  | Some model =>
      if String.eqb target "current" then
        (true, mkService (Some model) (next_model s) (Some model_name) (Some version)
                 (next_model_name s) (next_model_version s) (canary_probability s))
      else if String.eqb target "next" then
        (true, mkService (current_model s) (Some model) (current_model_name s)
                 (current_model_version s) (Some model_name) (Some version)
                 (canary_probability s))
      else (false, s)   (* ValueError, caught by the except clause *)
  end.

(** [load_initial_models]: two independent calls to the loader, one per
    slot; each call gets its own answer from the external registry. *)
Definition load_initial_models (ld_current ld_next : Loader) (s : Service)
    (model_name version : string) : bool * Service :=
  let (success_current, s1) := load_model ld_current s model_name version "current" in
  let (success_next, s2) := load_model ld_next s1 model_name version "next" in
  (success_current && success_next, s2).

(** Python's chained comparison [0.0 <= probability <= 1.0]. *)
Definition prob_in_range (probability : Q) : bool :=
  Qle_bool 0 probability && Qle_bool probability 1.

Definition set_canary_probability (s : Service) (probability : Q) : bool * Service :=
  if prob_in_range probability then
    (true, mkService (current_model s) (next_model s) (current_model_name s)
             (current_model_version s) (next_model_name s) (next_model_version s)
             probability)
  else (false, s).

Definition accept_next_model (s : Service) : bool * Service :=
  match next_model s with
  | None => (false, s)
  | Some _ =>
      (true, mkService (next_model s) (next_model s) (next_model_name s)
               (next_model_version s) (next_model_name s) (next_model_version s)
               (canary_probability s))
  end.

(** Python's [f"{x}"] on an optional string. *)
Definition show_opt (x : option string) : string :=
  match x with Some v => v | None => "None" end.

(** Outcomes of [predict]: the returned pair, or the [HTTPException]
    raised for a missing current model or for a prediction error. *)
Inductive PredictResult :=
| Predicted (predictions : list Z) (model_used : string)
| NoCurrentModel
| PredictionError.

Definition Qltb (x y : Q) : bool := negb (Qle_bool y x).

(** [predict(features)], with [r] the value drawn by [random.random()].
    It reads the state and assigns no field. *)
Definition predict (s : Service) (r : Q) (features : list (list Q)) : PredictResult :=
  match current_model s with
  | None => NoCurrentModel
  | Some cur =>
      let use_current := Qltb r (canary_probability s) in
      match (if use_current then None else next_model s) with
      | None =>
          match model_predict cur features with
          | Some predictions =>
              Predicted predictions
                ("current (" ++ show_opt (current_model_name s) ++ " v"
                   ++ show_opt (current_model_version s) ++ ")")
          | None => PredictionError
          end
      | Some nxt =>
          match model_predict nxt features with
          | Some predictions =>
              Predicted predictions
                ("next (" ++ show_opt (next_model_name s) ++ " v"
                   ++ show_opt (next_model_version s) ++ ")")
          | None => PredictionError
          end
      end
  end.

(** The read-only snapshot served by [/health] (and [/]). *)
Record Status := mkStatus {
  st_current_loaded : bool;
  st_next_loaded : bool;
  st_current : option string * option string;
  st_next : option string * option string;
  st_probability : Q
}.

Definition health (s : Service) : Status :=
  mkStatus (if current_model s then true else false)
           (if next_model s then true else false)
           (current_model_name s, current_model_version s)
           (next_model_name s, next_model_version s)
           (canary_probability s).

(** The operations the endpoints call, as one step function on the state. *)
Inductive Op :=
| OpLoad (ld : Loader) (model_name version target : string)
| OpLoadInitial (ld_current ld_next : Loader) (model_name version : string)
| OpSetProbability (probability : Q)
| OpAccept
| OpPredict (r : Q) (features : list (list Q))
| OpStatus.

Definition step (s : Service) (op : Op) : Service :=
  match op with
  | OpLoad ld n v t => snd (load_model ld s n v t)
  | OpLoadInitial l1 l2 n v => snd (load_initial_models l1 l2 s n v)
  | OpSetProbability p => snd (set_canary_probability s p)
  | OpAccept => snd (accept_next_model s)
  | OpPredict _ _ => s
  | OpStatus => s
  end.

Definition run (s : Service) (ops : list Op) : Service := fold_left step ops s.

(** The report of the slot a request was served by, as [predict] formats it. *)
Definition report_current (s : Service) : string :=
  "current (" ++ show_opt (current_model_name s) ++ " v"
    ++ show_opt (current_model_version s) ++ ")".

Definition report_next (s : Service) : string :=
  "next (" ++ show_opt (next_model_name s) ++ " v"
    ++ show_opt (next_model_version s) ++ ")".

(** The slots of the spec's SlotRegistry: "candidate" is the [next] slot. *)
Inductive Slot := SlotCurrent | SlotCandidate.

Definition registry_read (s : Service) (slot : Slot) : option Model :=
  match slot with
  | SlotCurrent => current_model s
  | SlotCandidate => next_model s
  end.

(** The spec's [route_and_predict] (section 4.2, steps 1-6), followed word for
    word and reported in the code's result type: NoModelLoaded is
    [NoCurrentModel], InferenceFailed is [PredictionError]. *)
Definition route_and_predict_spec (s : Service) (r : Q) (features : list (list Q))
    : PredictResult :=
  let slot := if Qltb r (canary_probability s) then SlotCurrent else SlotCandidate in
  let handle := registry_read s slot in
  let '(handle, used) :=
    match handle, slot with
    | None, SlotCandidate => (registry_read s SlotCurrent, SlotCurrent)
    | _, _ => (handle, slot)
    end in
  match handle with
  | None => NoCurrentModel
  | Some h =>
      match model_predict h features with
      | None => PredictionError
      | Some labels =>
          Predicted labels
            (match used with SlotCurrent => report_current s | SlotCandidate => report_next s end)
      end
  end.

(** The models each operation obtains from the loader, with the identity
    [(model_name, version)] it was loaded under (a ghost record of the trace). *)
Definition loaded_by (ld : Loader) (n v : string) : list (Model * (string * string)) :=
  match ld (model_uri n v) with
  | Some m => [(m, (n, v))]
  | None => []
  end.

Definition op_loads (op : Op) : list (Model * (string * string)) :=
  match op with
  | OpLoad ld n v _ => loaded_by ld n v
  | OpLoadInitial l1 l2 n v => loaded_by l1 n v ++ loaded_by l2 n v
  | _ => []
  end.

Definition loads (ops : list Op) : list (Model * (string * string)) :=
  flat_map op_loads ops.

End Canary.

(** ** The HTTP endpoints (src/app.py, module level) *)

Section Endpoints.

Context {Model : Type}.

(** Python's [str(x)] and [f"{x:.1f}"] on a float; the endpoint texts use
    them only inside messages. *)
Variable show_float : Q -> string.
Variable format_1f : Q -> string.

(** A JSON response body, or the [HTTPException] an endpoint raises. *)
Inductive HttpResult (A : Type) :=
| HttpOk (body : A)
| HttpError (status_code : Z) (detail : string).
Arguments HttpOk {A} body.
Arguments HttpError {A} status_code detail.

(** The ["name"]/["version"] object of a slot in a response. *)
Definition Identity := (option string * option string)%type.

Definition current_identity (s : @Service Model) : Identity :=
  (current_model_name s, current_model_version s).

Definition next_identity (s : @Service Model) : Identity :=
  (next_model_name s, next_model_version s).

(** [POST /update-model]: loads into the ["next"] slot. *)
Definition update_model (ld : @Loader Model) (s : Service) (model_name version : string)
    : HttpResult (string * Identity * Identity) * Service :=
  let (success, s') := load_model ld s model_name version "next" in
  if success then
    (HttpOk ("Next model updated to " ++ model_name ++ " version " ++ version,
             current_identity s', next_identity s'), s')
  else (HttpError 400 "Failed to update next model", s').

(** [POST /accept-next-model]. *)
Definition accept_next_model_endpoint (s : @Service Model)
    : HttpResult (string * Identity * Identity) * Service :=
  let (success, s') := accept_next_model s in
  if success then
    (HttpOk ("Next model accepted as current model", current_identity s', next_identity s'), s')
  else (HttpError 400 "No next model to accept", s').

(** [POST /set-canary-probability]: the body is the message, the stored
    ["canary_probability"] and the description. *)
Definition set_canary_probability_endpoint (s : @Service Model) (probability : Q)
    : HttpResult (string * Q * string) * Service :=
  let (success, s') := set_canary_probability s probability in
  if success then
    (HttpOk ("Canary probability set to " ++ show_float probability,
             canary_probability s',
             "Current model will be used " ++ format_1f (probability * 100) ++ "% of the time"), s')
  else (HttpError 400 "Probability must be between 0.0 and 1.0", s').

(** The [startup] event: the default model into both slots; a failure is only
    logged. *)
Definition startup_event (ld_current ld_next : @Loader Model) (s : Service) : Service :=
  snd (load_initial_models ld_current ld_next s "tracking-quickstart" "1").

End Endpoints.

Arguments HttpOk {A} body.
Arguments HttpError {A} status_code detail.

(** ** A concrete instance, for evaluation *)

(** Models are numbers; a model predicts its own number for any batch. *)
Definition demo_predict (m : nat) (_ : list (list Q)) : option (list Z) :=
  Some [Z.of_nat m].

(** A registry answering every URI with model [m], and one that raises. *)
Definition demo_loader (m : nat) : @Loader nat := fun _ => Some m.

Definition demo_failing_loader : @Loader nat := fun _ => None.

(** Current slot loaded with model 3 ("m" v1), candidate slot empty, p = 0. *)
Definition demo_current_only : @Service nat :=
  mkService (Some 3%nat) None (Some "m") (Some "1") None None 0.

(** Current slot with model 3 ("m" v1), candidate with model 5 ("m" v2). *)
Definition demo_both : @Service nat :=
  mkService (Some 3%nat) (Some 5%nat) (Some "m") (Some "1") (Some "m") (Some "2")
    (1#2).

(** A candidate loaded through the update endpoint before any current model,
    and the probability lowered to 0. *)
Definition demo_candidate_only_ops : list (@Op nat) :=
  [OpLoad (demo_loader 7) "m" "2" "next"; OpSetProbability 0].

(** Load v1 into current, v2 into next, then accept next. *)
Definition demo_rollout_ops : list (@Op nat) :=
  [OpLoad (demo_loader 3) "m" "1" "current"; OpLoad (demo_loader 5) "m" "2" "next";
   OpAccept].

(** ** Properties of the service *)

Section Properties.

Local Open Scope Q_scope.

Context {Model : Type}.
Variable model_predict : Model -> list (list Q) -> option (list Z).

Lemma prob_in_range_spec (p : Q) : prob_in_range p = true <-> 0 <= p /\ p <= 1.
Proof.
  unfold prob_in_range. rewrite andb_true_iff, !Qle_bool_iff. tauto.
Qed.

Lemma load_model_prob (ld : @Loader Model) (s : Service) n v t :
  canary_probability (snd (load_model ld s n v t)) = canary_probability s.
Proof.
  unfold load_model.
  destruct (ld (model_uri n v)); [|reflexivity].
  destruct (String.eqb t "current"); [reflexivity|].
  destruct (String.eqb t "next"); reflexivity.
Qed.

Lemma step_prob_frame (s : @Service Model) op :
  (forall p, op <> OpSetProbability p) ->
  canary_probability (step s op) = canary_probability s.
Proof.
  intros Hop. destruct op; simpl.
  - apply load_model_prob.
  - unfold load_initial_models.
    destruct (load_model ld_current s model_name version "current") as [b1 s1] eqn:E1.
    destruct (load_model ld_next s1 model_name version "next") as [b2 s2] eqn:E2.
    simpl.
    pose proof (load_model_prob ld_next s1 model_name version "next") as H2.
    rewrite E2 in H2. simpl in H2. rewrite H2.
    pose proof (load_model_prob ld_current s model_name version "current") as H1.
    rewrite E1 in H1. exact H1.
  - exfalso. exact (Hop probability eq_refl).
  - unfold accept_next_model. destruct (next_model s); reflexivity.
  - reflexivity.
  - reflexivity.
Qed.

Lemma step_prob_range (s : @Service Model) op :
  0 <= canary_probability s <= 1 -> 0 <= canary_probability (step s op) <= 1.
Proof.
  intros H.
  destruct op as [| | p | | |] eqn:Eop;
    try (rewrite step_prob_frame by (intros p' Hp'; discriminate); exact H).
  simpl. unfold set_canary_probability.
  destruct (prob_in_range p) eqn:E; simpl; [|exact H].
  apply prob_in_range_spec. exact E.
Qed.

Lemma nodup_fst_functional {A B : Type} (L : list (A * B)) a b b' :
  NoDup (map fst L) -> In (a, b) L -> In (a, b') L -> b = b'.
Proof.
  induction L as [|[x y] L IH]; simpl; [tauto|].
  intros Hnd Hb Hb'. inversion Hnd as [|? ? Hnotin Hnd']; subst.
  destruct Hb as [Hb|Hb], Hb' as [Hb'|Hb'].
  - congruence.
  - injection Hb as Hx _. exfalso. apply Hnotin. rewrite Hx.
    exact (in_map fst _ _ Hb').
  - injection Hb' as Hx _. exfalso. apply Hnotin. rewrite Hx.
    exact (in_map fst _ _ Hb).
  - apply IH; assumption.
Qed.

(** Every handle held by a slot is one the trace loaded, under the identity
    the slot records. *)
Definition slots_paired (ops : list (@Op Model)) (s : Service) : Prop :=
  (forall m, current_model s = Some m ->
     exists n v, In (m, (n, v)) (loads ops)
       /\ current_model_name s = Some n /\ current_model_version s = Some v) /\
  (forall m, next_model s = Some m ->
     exists n v, In (m, (n, v)) (loads ops)
       /\ next_model_name s = Some n /\ next_model_version s = Some v).

Lemma slots_paired_weaken ops ops' (s : @Service Model) :
  (forall x, In x (loads ops) -> In x (loads ops')) ->
  slots_paired ops s -> slots_paired ops' s.
Proof.
  intros Hinc [Hc Hn]. split.
  - intros m Hm. destruct (Hc m Hm) as (n & v & Hin & ?). eauto.
  - intros m Hm. destruct (Hn m Hm) as (n & v & Hin & ?). eauto.
Qed.

Lemma load_model_paired ops (ld : @Loader Model) (s : @Service Model) n v t :
  slots_paired ops s ->
  slots_paired (ops ++ [OpLoad ld n v t]) (snd (load_model ld s n v t)).
Proof.
  intros Hp.
  assert (Hinc : forall x, In x (loads ops) -> In x (loads (ops ++ [OpLoad ld n v t]))).
  { intros x Hx. unfold loads. rewrite flat_map_app. apply in_or_app. left. exact Hx. }
  assert (Hnew : forall m, ld (model_uri n v) = Some m ->
            In (m, (n, v)) (loads (ops ++ [OpLoad ld n v t]))).
  { intros m Hm. unfold loads. rewrite flat_map_app. apply in_or_app. right.
    simpl. unfold loaded_by. rewrite Hm. simpl. left. reflexivity. }
  apply (slots_paired_weaken _ _ _ Hinc) in Hp. destruct Hp as [Hc Hn].
  unfold load_model.
  destruct (ld (model_uri n v)) as [m|] eqn:Eld; simpl; [|split; assumption].
  destruct (String.eqb t "current"); simpl.
  { split; simpl; [|exact Hn].
    intros m' Hm'. injection Hm' as <-. exists n, v. auto. }
  destruct (String.eqb t "next"); simpl; [|split; assumption].
  split; simpl; [exact Hc|].
  intros m' Hm'. injection Hm' as <-. exists n, v. auto.
Qed.

Lemma loads_app (ops ops' : list (@Op Model)) :
  loads (ops ++ ops')%list = (loads ops ++ loads ops')%list.
Proof. unfold loads. apply flat_map_app. Qed.

Lemma step_paired ops (s : @Service Model) op :
  slots_paired ops s -> slots_paired (ops ++ [op])%list (step s op).
Proof.
  intros Hp.
  assert (Hinc : forall x, In x (loads ops) -> In x (loads (ops ++ [op])%list)).
  { intros x Hx. rewrite loads_app. apply in_or_app. left. exact Hx. }
  destruct op as [ld n v t | l1 l2 n v | p | | r f |]; simpl.
  - apply load_model_paired. exact Hp.
  - unfold load_initial_models.
    pose proof (load_model_paired ops l1 s n v "current" Hp) as H1.
    destruct (load_model l1 s n v "current") as [b1 s1] eqn:E1. simpl in H1.
    pose proof (load_model_paired _ l2 s1 n v "next" H1) as H2.
    destruct (load_model l2 s1 n v "next") as [b2 s2] eqn:E2. simpl in H2 |- *.
    revert H2. apply slots_paired_weaken.
    intros x. rewrite !loads_app. simpl. rewrite !app_nil_r, app_assoc. tauto.
  - apply (slots_paired_weaken _ _ _ Hinc) in Hp. destruct Hp as [Hc Hn].
    unfold set_canary_probability.
    destruct (prob_in_range p); simpl; split; assumption.
  - apply (slots_paired_weaken _ _ _ Hinc) in Hp. destruct Hp as [Hc Hn].
    unfold accept_next_model.
    destruct (next_model s) eqn:En; simpl.
    + split; simpl; intros m' Hm'; apply Hn; exact Hm'.
    + split; [exact Hc|]. intros m Hm. congruence.
  - apply (slots_paired_weaken _ _ _ Hinc). exact Hp.
  - apply (slots_paired_weaken _ _ _ Hinc). exact Hp.
Qed.

Lemma run_app (s : @Service Model) ops ops' :
  run s (ops ++ ops')%list = run (run s ops) ops'.
Proof. unfold run. apply fold_left_app. Qed.

Lemma run_paired (ops : list (@Op Model)) : slots_paired ops (run init_service ops).
Proof.
  induction ops as [|op ops IH] using rev_ind.
  - split; simpl; discriminate.
  - rewrite run_app. simpl. apply step_paired. exact IH.
Qed.

Lemma run_prob_range (ops : list (@Op Model)) (s : Service) :
  0 <= canary_probability s <= 1 -> 0 <= canary_probability (run s ops) <= 1.
Proof.
  revert s. induction ops as [|op ops IH]; intros s H; simpl; [exact H|].
  apply IH. apply step_prob_range. exact H.
Qed.

(** With the candidate slot empty, [predict] runs the current model. *)
Lemma predict_next_empty (s : @Service Model) r features mc :
  next_model s = None -> current_model s = Some mc ->
  predict model_predict s r features =
    match model_predict mc features with
    | Some labels => Predicted labels (report_current s)
    | None => PredictionError
    end.
Proof.
  intros Hn Hc. unfold predict. rewrite Hc.
  destruct (Qltb r (canary_probability s)); [|rewrite Hn]; reflexivity.
Qed.

(** ** The claims *)

(** C1 (amended): [predict] fails with the no-current-model error whenever
    the current slot is empty, whatever the candidate slot holds and before
    any draw; when the current slot holds a handle it routes exactly as the
    spec's [route_and_predict]: current when [r < p], else candidate, falling
    back to current when the candidate slot is empty. *)
Theorem predict_guard_then_route (s : @Service Model) r features :
  predict model_predict s r features =
    match current_model s with
    | None => NoCurrentModel
    | Some _ => route_and_predict_spec model_predict s r features
    end.
Proof.
  unfold predict, route_and_predict_spec, report_current, report_next.
  destruct (current_model s) as [c|] eqn:Ec; [|reflexivity].
  destruct (Qltb r (canary_probability s)); simpl; rewrite ?Ec; [reflexivity|].
  destruct (next_model s) as [nx|] eqn:En; simpl; rewrite ?Ec; reflexivity.
Qed.

(** C2: [set_canary_probability p] succeeds exactly when [0 <= p <= 1]; on
    success the stored probability, and the one [/health] reports, is [p];
    otherwise it fails and the state is unchanged. *)
Theorem set_canary_probability_spec (s : @Service Model) (p : Q) :
  (fst (set_canary_probability s p) = true <-> 0 <= p /\ p <= 1) /\
  (0 <= p /\ p <= 1 ->
     canary_probability (snd (set_canary_probability s p)) = p /\
     st_probability (health (snd (set_canary_probability s p))) = p) /\
  (~ (0 <= p /\ p <= 1) ->
     snd (set_canary_probability s p) = s /\
     health (snd (set_canary_probability s p)) = health s).
Proof.
  unfold set_canary_probability. rewrite <- prob_in_range_spec.
  destruct (prob_in_range p); simpl.
  - repeat split; tauto.
  - split; [split; discriminate|]. split; [intros H; discriminate H|].
    intros _. split; reflexivity.
Qed.

(** C3: [accept_next_model] fails exactly when the candidate slot is empty;
    otherwise it copies the candidate's model, name and version into the
    current slot and leaves the candidate slot as it was. *)
Theorem accept_next_model_spec (s : @Service Model) :
  (fst (accept_next_model s) = false <-> next_model s = None) /\
  (forall m, next_model s = Some m ->
     fst (accept_next_model s) = true /\
     current_model (snd (accept_next_model s)) = Some m /\
     current_model_name (snd (accept_next_model s)) = next_model_name s /\
     current_model_version (snd (accept_next_model s)) = next_model_version s /\
     next_model (snd (accept_next_model s)) = Some m /\
     next_model_name (snd (accept_next_model s)) = next_model_name s /\
     next_model_version (snd (accept_next_model s)) = next_model_version s).
Proof.
  unfold accept_next_model.
  destruct (next_model s) as [m|] eqn:En; simpl.
  - split; [split; discriminate|].
    intros m' Hm'. injection Hm' as <-. repeat split.
  - split; [tauto|]. intros m Hm. discriminate.
Qed.

(** C4: when the loader raises, [load_model] returns failure and the state
    (both slots and the probability) is exactly the prior one; the state
    changes only after a successful load. *)
Theorem load_model_failure_untouched (ld : @Loader Model) (s : Service) n v t :
  (ld (model_uri n v) = None -> load_model ld s n v t = (false, s)) /\
  (snd (load_model ld s n v t) <> s ->
     exists m, ld (model_uri n v) = Some m /\ fst (load_model ld s n v t) = true).
Proof.
  unfold load_model. split.
  - intros H. rewrite H. reflexivity.
  - destruct (ld (model_uri n v)) as [m|]; simpl; [|tauto].
    intros Hch. exists m. split; [reflexivity|].
    destruct (String.eqb t "current"); [reflexivity|].
    destruct (String.eqb t "next"); [reflexivity|].
    simpl in Hch. tauto.
Qed.

(** C5: with the candidate slot empty and the current slot loaded, every
    [predict] call, for every probability and draw, runs the current model:
    its labels reported as "current", or the error it raises; never the
    no-current-model error. *)
Theorem predict_candidate_empty_uses_current (s : @Service Model) r features mc :
  next_model s = None -> current_model s = Some mc ->
  predict model_predict s r features <> NoCurrentModel /\
  predict model_predict s r features =
    match model_predict mc features with
    | Some labels => Predicted labels (report_current s)
    | None => PredictionError
    end.
Proof.
  intros Hn Hc. rewrite (predict_next_empty s r features mc Hn Hc).
  split; [|reflexivity].
  destruct (model_predict mc features); discriminate.
Qed.

(** C6: after a successful [accept_next_model], a second call succeeds and
    leaves the whole state unchanged. *)
Theorem accept_next_model_idempotent (s s1 : @Service Model) :
  accept_next_model s = (true, s1) -> accept_next_model s1 = (true, s1).
Proof.
  unfold accept_next_model.
  destruct (next_model s) as [m|] eqn:En; [|discriminate].
  intros H. injection H as <-. simpl. reflexivity.
Qed.

(** C7: [predict] assigns no field: the state after a predict step, and
    after any run of predict steps, is the state before it. *)
Theorem predict_leaves_state (s : @Service Model) r features
    (draws : list (Q * list (list Q))) :
  step s (OpPredict r features) = s /\
  run s (map (fun '(r', f) => OpPredict r' f) draws) = s.
Proof.
  split; [reflexivity|].
  induction draws as [|[r' f] draws IH]; simpl; [reflexivity|exact IH].
Qed.

(** C8: the probability starts at 1, stays within [0,1] along every run from
    the constructed service, and only [set_canary_probability] changes it. *)
Theorem canary_probability_invariant :
  canary_probability (@init_service Model) = 1 /\
  (forall ops : list (@Op Model),
     0 <= canary_probability (run init_service ops) /\
     canary_probability (run init_service ops) <= 1) /\
  (forall (s : @Service Model) op,
     (forall p, op <> OpSetProbability p) ->
     canary_probability (step s op) = canary_probability s).
Proof.
  split; [reflexivity|]. split.
  - intros ops. apply run_prob_range. simpl. split; discriminate.
  - apply step_prob_frame.
Qed.

(** C9: along every run in which the loader hands out distinct model objects,
    a slot holding a model records the name and version that model was
    loaded under, and [predict] reports the identity of the model it ran. *)
Theorem slot_identity_paired (ops : list (@Op Model)) m n v :
  NoDup (map fst (loads ops)) -> In (m, (n, v)) (loads ops) ->
  (current_model (run init_service ops) = Some m ->
     current_model_name (run init_service ops) = Some n /\
     current_model_version (run init_service ops) = Some v) /\
  (next_model (run init_service ops) = Some m ->
     next_model_name (run init_service ops) = Some n /\
     next_model_version (run init_service ops) = Some v) /\
  (forall r features labels used,
     predict model_predict (run init_service ops) r features = Predicted labels used ->
     exists m' n' v', In (m', (n', v')) (loads ops) /\
       model_predict m' features = Some labels /\
       (used = "current (" ++ n' ++ " v" ++ v' ++ ")" \/
        used = "next (" ++ n' ++ " v" ++ v' ++ ")")).
Proof.
  intros Hnd Hin. destruct (run_paired ops) as [Hc Hn].
  split; [|split].
  - intros Hm. destruct (Hc m Hm) as (n' & v' & Hin' & -> & ->).
    pose proof (nodup_fst_functional _ _ _ _ Hnd Hin Hin') as E.
    injection E as -> ->. split; reflexivity.
  - intros Hm. destruct (Hn m Hm) as (n' & v' & Hin' & -> & ->).
    pose proof (nodup_fst_functional _ _ _ _ Hnd Hin Hin') as E.
    injection E as -> ->. split; reflexivity.
  - intros r features labels used. unfold predict.
    destruct (current_model (run init_service ops)) as [c|] eqn:Ec; [|discriminate].
    destruct (Qltb r (canary_probability (run init_service ops))); simpl.
    + destruct (model_predict c features) eqn:Ep; [|discriminate].
      intros H. injection H as <- <-.
      destruct (Hc c ltac:(assumption || reflexivity)) as (n' & v' & Hin' & -> & ->).
      exists c, n', v'. simpl. auto.
    + destruct (next_model (run init_service ops)) as [nx|] eqn:En.
      * destruct (model_predict nx features) eqn:Ep; [|discriminate].
        intros H. injection H as <- <-.
        destruct (Hn nx ltac:(assumption || reflexivity)) as (n' & v' & Hin' & -> & ->).
        exists nx, n', v'. simpl. auto.
      * destruct (model_predict c features) eqn:Ep; [|discriminate].
        intros H. injection H as <- <-.
        destruct (Hc c ltac:(assumption || reflexivity)) as (n' & v' & Hin' & -> & ->).
        exists c, n', v'. simpl. auto.
Qed.

(** C10: if at startup the load into the current slot succeeds and the load
    into the next slot fails, [load_initial_models] reports failure, the
    current slot holds the model, the next slot stays empty, and every
    [predict] runs the current model instead of raising the no-current-model
    error. *)
Theorem startup_next_load_failure (ld_current ld_next : @Loader Model) n v mc :
  ld_current (model_uri n v) = Some mc -> ld_next (model_uri n v) = None ->
  fst (load_initial_models ld_current ld_next init_service n v) = false /\
  current_model (snd (load_initial_models ld_current ld_next init_service n v)) = Some mc /\
  next_model (snd (load_initial_models ld_current ld_next init_service n v)) = None /\
  (forall r features,
     predict model_predict
       (snd (load_initial_models ld_current ld_next init_service n v)) r features
       <> NoCurrentModel /\
     predict model_predict
       (snd (load_initial_models ld_current ld_next init_service n v)) r features =
       match model_predict mc features with
       | Some labels => Predicted labels ("current (" ++ n ++ " v" ++ v ++ ")")
       | None => PredictionError
       end).
Proof.
  intros H1 H2. unfold load_initial_models, load_model.
  rewrite H1, H2. simpl.
  split; [reflexivity|]. split; [reflexivity|]. split; [reflexivity|].
  intros r features.
  rewrite predict_next_empty with (mc := mc) by reflexivity.
  split; [|reflexivity].
  destruct (model_predict mc features); discriminate.
Qed.

End Properties.

(** ** Further properties of the service and its endpoints *)

Section Extras.

Local Open Scope Q_scope.

Context {Model : Type}.
Variable model_predict : Model -> list (list Q) -> option (list Z).

(** Each slot's model, name and version are all set or all [None]. *)
Definition slot_shape (s : @Service Model) : Prop :=
  (current_model s = None <-> current_model_name s = None) /\
  (current_model_name s = None <-> current_model_version s = None) /\
  (next_model s = None <-> next_model_name s = None) /\
  (next_model_name s = None <-> next_model_version s = None).

Lemma load_model_shape (ld : @Loader Model) s n v t :
  slot_shape s -> slot_shape (snd (load_model ld s n v t)).
Proof.
  intros H. unfold load_model.
  destruct (ld (model_uri n v)); [|exact H].
  destruct (String.eqb t "current").
  - unfold slot_shape in *; simpl. intuition discriminate.
  - destruct (String.eqb t "next"); [|exact H].
    unfold slot_shape in *; simpl. intuition discriminate.
Qed.

Lemma step_shape (s : @Service Model) op : slot_shape s -> slot_shape (step s op).
Proof.
  intros H. destruct op; simpl.
  - apply load_model_shape. exact H.
  - unfold load_initial_models.
    pose proof (load_model_shape ld_current s model_name version "current" H) as H1.
    destruct (load_model ld_current s model_name version "current") as [b1 s1].
    simpl in H1.
    pose proof (load_model_shape ld_next s1 model_name version "next" H1) as H2.
    destruct (load_model ld_next s1 model_name version "next") as [b2 s2].
    exact H2.
  - unfold set_canary_probability. destruct (prob_in_range probability); [|exact H].
    unfold slot_shape in *. simpl. exact H.
  - unfold accept_next_model. destruct (next_model s) eqn:En; [|exact H].
    unfold slot_shape in *. simpl. rewrite En in H. intuition.
  - exact H.
  - exact H.
Qed.

Lemma step_keeps_loaded (s : @Service Model) op :
  (current_model s <> None -> current_model (step s op) <> None) /\
  (next_model s <> None -> next_model (step s op) <> None).
Proof.
  assert (Hl : forall (ld : @Loader Model) s n v t,
    (current_model s <> None -> current_model (snd (load_model ld s n v t)) <> None) /\
    (next_model s <> None -> next_model (snd (load_model ld s n v t)) <> None)).
  { intros ld s' n v t. unfold load_model.
    destruct (ld (model_uri n v)); [|tauto].
    destruct (String.eqb t "current"); simpl; [split; [discriminate|tauto]|].
    destruct (String.eqb t "next"); simpl; [split; [tauto|discriminate]|tauto]. }
  destruct op; simpl.
  - apply Hl.
  - unfold load_initial_models.
    destruct (Hl ld_current s model_name version "current") as [A1 B1].
    destruct (load_model ld_current s model_name version "current") as [b1 s1].
    simpl in A1, B1.
    destruct (Hl ld_next s1 model_name version "next") as [A2 B2].
    destruct (load_model ld_next s1 model_name version "next") as [b2 s2].
    simpl in A2, B2. simpl. tauto.
  - unfold set_canary_probability. destruct (prob_in_range probability); simpl; tauto.
  - unfold accept_next_model. destruct (next_model s) eqn:En; simpl; [|tauto].
    split; intros _; discriminate.
  - tauto.
  - tauto.
Qed.

(** [load_model] with a target other than ["current"] and ["next"] returns
    [False] and leaves the state unchanged, even when the loader succeeds. *)
Theorem load_model_invalid_target (ld : @Loader Model) (s : Service) n v t :
  t <> "current" -> t <> "next" -> load_model ld s n v t = (false, s).
Proof.
  intros Hc Hn. unfold load_model.
  destruct (ld (model_uri n v)); [|reflexivity].
  apply String.eqb_neq in Hc, Hn. rewrite Hc, Hn. reflexivity.
Qed.

(** Loading into one slot never touches the other slot or the probability,
    whatever the loader answers. *)
Theorem load_model_other_slot_frame (ld : @Loader Model) (s : Service) n v :
  (next_model (snd (load_model ld s n v "current")) = next_model s /\
   next_identity (snd (load_model ld s n v "current")) = next_identity s /\
   canary_probability (snd (load_model ld s n v "current")) = canary_probability s) /\
  (current_model (snd (load_model ld s n v "next")) = current_model s /\
   current_identity (snd (load_model ld s n v "next")) = current_identity s /\
   canary_probability (snd (load_model ld s n v "next")) = canary_probability s).
Proof.
  unfold load_model, next_identity, current_identity.
  destruct (ld (model_uri n v)); simpl; repeat split.
Qed.

(** [POST /update-model] never changes the current slot or the probability.
    When the loader raises it answers 400 and leaves the state as it was;
    otherwise the next slot holds the loaded model and the response reports
    the unchanged current identity and the new next identity. *)
Theorem update_model_spec (ld : @Loader Model) (s : Service) n v :
  (current_model (snd (update_model ld s n v)) = current_model s /\
   current_identity (snd (update_model ld s n v)) = current_identity s /\
   canary_probability (snd (update_model ld s n v)) = canary_probability s) /\
  (ld (model_uri n v) = None ->
     update_model ld s n v = (HttpError 400 "Failed to update next model", s)) /\
  (forall m, ld (model_uri n v) = Some m ->
     next_model (snd (update_model ld s n v)) = Some m /\
     fst (update_model ld s n v) =
       HttpOk ("Next model updated to " ++ n ++ " version " ++ v,
               current_identity s, (Some n, Some v))).
Proof.
  unfold update_model, load_model, current_identity, next_identity.
  destruct (ld (model_uri n v)) as [m|] eqn:E; simpl.
  - split; [repeat split|]. split; [discriminate|].
    intros m' Hm'. injection Hm' as <-. split; reflexivity.
  - split; [repeat split|]. split; [reflexivity|]. discriminate.
Qed.

(** [POST /accept-next-model] answers 400 and changes nothing when the next
    slot is empty; otherwise its response reports the former next identity
    as both the current and the next identity. *)
Theorem accept_next_model_endpoint_spec (s : @Service Model) :
  (next_model s = None ->
     accept_next_model_endpoint s = (HttpError 400 "No next model to accept", s)) /\
  (forall m, next_model s = Some m ->
     fst (accept_next_model_endpoint s) =
       HttpOk ("Next model accepted as current model", next_identity s, next_identity s)).
Proof.
  unfold accept_next_model_endpoint, accept_next_model.
  destruct (next_model s); simpl; split; try discriminate; reflexivity.
Qed.

(** [POST /set-canary-probability] answers with the stored probability, equal
    to the requested one, when it is in [0,1]; otherwise it answers 400 and
    the state is unchanged. *)
Theorem set_canary_probability_endpoint_spec show_float format_1f
    (s : @Service Model) (p : Q) :
  (0 <= p /\ p <= 1 ->
     canary_probability (snd (set_canary_probability_endpoint show_float format_1f s p)) = p /\
     exists msg desc,
       fst (set_canary_probability_endpoint show_float format_1f s p) = HttpOk (msg, p, desc)) /\
  (~ (0 <= p /\ p <= 1) ->
     set_canary_probability_endpoint show_float format_1f s p =
       (HttpError 400 "Probability must be between 0.0 and 1.0", s)).
Proof.
  unfold set_canary_probability_endpoint, set_canary_probability.
  rewrite <- prob_in_range_spec.
  destruct (prob_in_range p); simpl.
  - split; [|intros H; exfalso; apply H; reflexivity].
    intros _. split; [reflexivity|]. eexists; eexists; reflexivity.
  - split; [intros H; discriminate H|]. intros _. reflexivity.
Qed.

(** [load_initial_models] reports success exactly when both loader calls
    succeed; then both slots report the requested identity and the
    probability is unchanged. *)
Theorem load_initial_models_spec (l1 l2 : @Loader Model) (s : Service) n v :
  (fst (load_initial_models l1 l2 s n v) = true <->
     (exists m1, l1 (model_uri n v) = Some m1) /\ (exists m2, l2 (model_uri n v) = Some m2)) /\
  (fst (load_initial_models l1 l2 s n v) = true ->
     current_identity (snd (load_initial_models l1 l2 s n v)) = (Some n, Some v) /\
     next_identity (snd (load_initial_models l1 l2 s n v)) = (Some n, Some v) /\
     canary_probability (snd (load_initial_models l1 l2 s n v)) = canary_probability s).
Proof.
  unfold load_initial_models, load_model, current_identity, next_identity.
  destruct (l1 (model_uri n v)) as [m1|]; destruct (l2 (model_uri n v)) as [m2|];
    simpl; split.
  - split; [intros _; split; eexists; reflexivity|reflexivity].
  - intros _. repeat split.
  - split; [discriminate|]. intros [_ [m2 H]]. discriminate.
  - discriminate.
  - split; [discriminate|]. intros [[m1 H] _]. discriminate.
  - discriminate.
  - split; [discriminate|]. intros [[m1 H] _]. discriminate.
  - discriminate.
Qed.

(** When the registry fails both startup loads, the service keeps its
    constructed state (no model, probability 1) and every [predict] raises
    the no-current-model error. *)
Theorem startup_registry_down (l1 l2 : @Loader Model) :
  l1 (model_uri "tracking-quickstart" "1") = None ->
  l2 (model_uri "tracking-quickstart" "1") = None ->
  startup_event l1 l2 init_service = init_service /\
  (forall r features,
     predict model_predict (startup_event l1 l2 init_service) r features = NoCurrentModel).
Proof.
  intros H1 H2. unfold startup_event, load_initial_models, load_model.
  rewrite H1, H2. simpl. split; reflexivity.
Qed.

(** No operation empties a slot: once loaded, a slot stays loaded along
    every run. *)
Theorem run_keeps_slots_loaded (s : @Service Model) ops :
  (current_model s <> None -> current_model (run s ops) <> None) /\
  (next_model s <> None -> next_model (run s ops) <> None).
Proof.
  revert s. induction ops as [|op ops IH]; intros s; simpl; [tauto|].
  destruct (step_keeps_loaded s op) as [A B].
  destruct (IH (step s op)) as [A' B']. tauto.
Qed.

(** In every state reached from the constructed service, each slot's
    model, name and version are either all set or all [None]: [/health]
    reports a slot as loaded exactly when it reports a name for it. *)
Theorem run_slot_shape (ops : list (@Op Model)) :
  slot_shape (run init_service ops) /\
  (st_current_loaded (health (run init_service ops)) = true <->
     fst (st_current (health (run init_service ops))) <> None) /\
  (st_next_loaded (health (run init_service ops)) = true <->
     fst (st_next (health (run init_service ops))) <> None).
Proof.
  assert (Hs : forall s, slot_shape s -> slot_shape (run s ops)).
  { induction ops as [|op ops IH]; intros s H; simpl; [exact H|].
    apply IH. apply step_shape. exact H. }
  assert (H : slot_shape (run init_service ops)).
  { apply Hs. unfold slot_shape. simpl. tauto. }
  split; [exact H|]. destruct H as (A & _ & B & _).
  assert (Hflag : forall (o : option Model) (nm : option string),
            (o = None <-> nm = None) -> ((if o then true else false) = true <-> nm <> None)).
  { intros [o|] [nm|] [H1 H2]; simpl; split; intros Hx; try congruence;
      exfalso; first [specialize (H2 eq_refl) | specialize (H1 eq_refl)]; discriminate. }
  unfold health. simpl. split; apply Hflag; assumption.
Qed.

(** Along every run the probability is the last in-range value passed to
    [set_canary_probability], or the starting one when there is none. *)
Theorem run_probability_last_valid (s : @Service Model) ops :
  canary_probability (run s ops) =
    fold_left (fun q op =>
                 match op with
                 | OpSetProbability p => if prob_in_range p then p else q
                 | _ => q
                 end) ops (canary_probability s).
Proof.
  revert s. induction ops as [|op ops IH]; intros s; simpl; [reflexivity|].
  rewrite IH. f_equal.
  destruct op as [| | p | | |];
    try (apply step_prob_frame; intros p' Hp'; discriminate).
  simpl. unfold set_canary_probability.
  destruct (prob_in_range p); reflexivity.
Qed.

(** For a draw [r] in [0,1) (the range of [random.random()]): with
    probability 1 every request is served by the current model, and with
    probability 0 every request is served by the next model when one is
    loaded. *)
Theorem predict_extreme_probabilities (s : @Service Model) r features :
  0 <= r -> r < 1 ->
  (canary_probability s == 1 ->
     predict model_predict s r features =
       match current_model s with
       | None => NoCurrentModel
       | Some c =>
           match model_predict c features with
           | Some labels => Predicted labels (report_current s)
           | None => PredictionError
           end
       end) /\
  (canary_probability s == 0 -> forall c nx,
     current_model s = Some c -> next_model s = Some nx ->
     predict model_predict s r features =
       match model_predict nx features with
       | Some labels => Predicted labels (report_next s)
       | None => PredictionError
       end).
Proof.
  intros Hr0 Hr1. split.
  - intros Hp. unfold predict, Qltb.
    destruct (current_model s) as [c|]; [|reflexivity].
    destruct (Qle_bool (canary_probability s) r) eqn:E; [|reflexivity].
    exfalso. apply Qle_bool_iff in E. rewrite Hp in E.
    exact (Qlt_not_le r 1 Hr1 E).
  - intros Hp c nx Hc Hn. unfold predict, Qltb. rewrite Hc.
    assert (E : Qle_bool (canary_probability s) r = true).
    { apply Qle_bool_iff. rewrite Hp. exact Hr0. }
    rewrite E. simpl. rewrite Hn. reflexivity.
Qed.

(** [POST /update-model] followed by [POST /accept-next-model]: when the load
    succeeds, the accept succeeds, both slots then hold the loaded model,
    the response reports its identity for both slots, and the probability
    is unchanged. *)
Theorem update_then_accept (ld : @Loader Model) (s : Service) n v m :
  ld (model_uri n v) = Some m ->
  fst (accept_next_model_endpoint (snd (update_model ld s n v))) =
    HttpOk ("Next model accepted as current model", (Some n, Some v), (Some n, Some v)) /\
  current_model (snd (accept_next_model_endpoint (snd (update_model ld s n v)))) = Some m /\
  next_model (snd (accept_next_model_endpoint (snd (update_model ld s n v)))) = Some m /\
  canary_probability (snd (accept_next_model_endpoint (snd (update_model ld s n v))))
    = canary_probability s.
Proof.
  intros H. unfold update_model, load_model. rewrite H. simpl.
  repeat split.
Qed.

(** After a successful promotion every request, for every probability and
    draw, runs the promoted model: it never raises the no-current-model
    error, and it returns exactly that model's labels or its prediction
    error. *)
Theorem predict_after_accept (s : @Service Model) m r features :
  next_model s = Some m ->
  predict model_predict (snd (accept_next_model s)) r features <> NoCurrentModel /\
  (predict model_predict (snd (accept_next_model s)) r features = PredictionError <->
     model_predict m features = None) /\
  (forall labels used,
     predict model_predict (snd (accept_next_model s)) r features = Predicted labels used ->
     model_predict m features = Some labels).
Proof.
  intros Hn. unfold predict, accept_next_model. rewrite Hn. simpl.
  destruct (Qltb r (canary_probability s));
    destruct (model_predict m features) eqn:E; simpl;
    (split; [discriminate|split; [split; intros Hx; discriminate Hx || reflexivity|]]);
    intros labels used Hx; try discriminate; injection Hx as <- _; reflexivity.
Qed.

End Extras.

(** ** Evaluations at concrete inputs *)

(** C1: with only the candidate slot loaded and a draw [r = 1/2 >= p = 0]
    selecting the candidate, the spec's route runs the candidate model while
    [predict] raises the no-current-model error. *)
Lemma predict_candidate_needs_current :
  current_model (run init_service demo_candidate_only_ops) = None /\
  next_model (run init_service demo_candidate_only_ops) = Some 7%nat /\
  predict demo_predict (run init_service demo_candidate_only_ops) (1#2) [] = NoCurrentModel /\
  route_and_predict_spec demo_predict (run init_service demo_candidate_only_ops) (1#2) []
    = Predicted [7%Z] "next (m v2)".
Proof. vm_compute. repeat split. Qed.

Lemma predict_candidate_empty_uses_current_witness :
  next_model demo_current_only = None /\
  current_model demo_current_only = Some 3%nat /\
  predict demo_predict demo_current_only (1#2) [] = Predicted [3%Z] "current (m v1)".
Proof.
  split; [reflexivity|]. split; [reflexivity|].
  destruct (predict_candidate_empty_uses_current demo_predict demo_current_only
              (1#2) [] 3%nat eq_refl eq_refl) as [_ H].
  rewrite H. reflexivity.
Defined.

Lemma accept_next_model_idempotent_witness :
  accept_next_model demo_both = (true, snd (accept_next_model demo_both)) /\
  accept_next_model (snd (accept_next_model demo_both))
    = (true, snd (accept_next_model demo_both)).
Proof.
  split; [reflexivity|].
  apply (accept_next_model_idempotent demo_both). reflexivity.
Defined.

Lemma slot_identity_paired_witness :
  NoDup (map fst (loads demo_rollout_ops)) /\
  In (5%nat, ("m", "2")) (loads demo_rollout_ops) /\
  current_model_name (run init_service demo_rollout_ops) = Some "m" /\
  current_model_version (run init_service demo_rollout_ops) = Some "2".
Proof.
  assert (Hnd : NoDup (map fst (loads demo_rollout_ops))).
  { vm_compute. constructor; [simpl; intros [H|[]]; discriminate|].
    constructor; [simpl; tauto|constructor]. }
  assert (Hin : In (5%nat, ("m", "2")) (loads demo_rollout_ops)).
  { vm_compute. right. left. reflexivity. }
  destruct (slot_identity_paired demo_predict demo_rollout_ops 5%nat "m" "2" Hnd Hin)
    as [Hc _].
  split; [exact Hnd|]. split; [exact Hin|].
  apply Hc. reflexivity.
Defined.

Lemma startup_next_load_failure_witness :
  demo_loader 3 (model_uri "m" "1") = Some 3%nat /\
  demo_failing_loader (model_uri "m" "1") = None /\
  fst (load_initial_models (demo_loader 3) demo_failing_loader init_service "m" "1") = false /\
  predict demo_predict
    (snd (load_initial_models (demo_loader 3) demo_failing_loader init_service "m" "1"))
    (1#2) [] = Predicted [3%Z] "current (m v1)".
Proof.
  destruct (startup_next_load_failure demo_predict (demo_loader 3) demo_failing_loader
              "m" "1" 3%nat eq_refl eq_refl) as (Hok & _ & _ & Hp).
  split; [reflexivity|]. split; [reflexivity|]. split; [exact Hok|].
  destruct (Hp (1#2) []) as [_ ->]. reflexivity.
Defined.

Lemma load_model_invalid_target_witness :
  load_model (demo_loader 5) demo_both "m" "3" "candidate" = (false, demo_both).
Proof.
  apply load_model_invalid_target; discriminate.
Defined.

Lemma startup_registry_down_witness :
  startup_event demo_failing_loader demo_failing_loader init_service = init_service /\
  predict demo_predict (startup_event demo_failing_loader demo_failing_loader init_service)
    (1#2) [] = NoCurrentModel.
Proof.
  destruct (startup_registry_down demo_predict demo_failing_loader demo_failing_loader
              eq_refl eq_refl) as [H1 H2].
  split; [exact H1|apply H2].
Defined.

Lemma predict_extreme_probabilities_witness :
  predict demo_predict (mkService (Some 3%nat) (Some 5%nat) (Some "m") (Some "1")
                          (Some "m") (Some "2") 0) (1#2) []
    = Predicted [5%Z] "next (m v2)".
Proof.
  destruct (predict_extreme_probabilities demo_predict
              (mkService (Some 3%nat) (Some 5%nat) (Some "m") (Some "1")
                 (Some "m") (Some "2") 0) (1#2) []) as [_ H].
  - vm_compute. discriminate.
  - reflexivity.
  - rewrite (H (Qeq_refl 0) 3%nat 5%nat eq_refl eq_refl). reflexivity.
Defined.

Lemma update_then_accept_witness :
  current_model (snd (accept_next_model_endpoint
                        (snd (update_model (demo_loader 5) demo_current_only "m" "2"))))
    = Some 5%nat.
Proof.
  destruct (update_then_accept (demo_loader 5) demo_current_only "m" "2" 5%nat eq_refl)
    as (_ & H & _).
  exact H.
Defined.

Lemma predict_after_accept_witness :
  predict demo_predict (snd (accept_next_model demo_both)) (1#4) [] <> NoCurrentModel.
Proof.
  destruct (predict_after_accept demo_predict demo_both 5%nat (1#4) [] eq_refl) as [H _].
  exact H.
Defined.
